(** * go-api: the generic in-memory store of [storage/store.go]

    A shallow embedding of [storage.MemoryStore[T]] and of its five
    operations, followed by the properties of the storage contract.

    Modelling decisions.
    - The map [items map[string]T] is a [gmap string T].
    - The type parameter [T] is a code of a small universe ([TypeParam]):
      the type switches of [Create] and [Update] inspect the dynamic type of
      [&data], which is fixed by [T]; the model matches on the code of [T].
    - [uuid.New().String()] and [time.Now()] are calls into the environment.
      Their results are passed to the operation as an explicit record of
      readings, in the order in which the code performs the calls.
    - Every method holds [mu] for its whole body, so a method is one atomic
      transition of the store; the lock itself is not represented. *)

From stdpp Require Import gmap strings list fin_maps.

Set Default Proof Using "Type".

(** ** Time

    A [time.Time] obtained from [time.Now()] carries a reading of the
    process's monotonic clock; an instant is a number of clock units.  The
    zero value of [time.Time] is the instant 0. *)
Definition Time := nat.

Definition zero_Time : Time := 0.

(** ** The record shapes of package [models]

    The declarations of [models.Item] and [models.Client] (files
    [models/item.go] and [models/client.go]) are not part of the sources at
    hand.  The store reads and writes exactly the fields [ID], [CreatedAt]
    and [UpdatedAt]; the fields a shape adds of its own are never
    interpreted by the store.  They are kept as one component of an
    arbitrary type, given together with its zero value (the zero value of a
    Go struct is the struct of the zero values of its fields). *)
Record OwnFields : Type := mkOwnFields {
  ItemFields : Type;
  zero_ItemFields : ItemFields;
  ClientFields : Type;
  zero_ClientFields : ClientFields
}.

Module models.
Section Shapes.

Context {F : OwnFields}.

(** Modelled from the spec: the declaration of [models.Item] is missing.
    "Every record shape must carry, at minimum: a unique string identifier,
    a creation timestamp, and a last-modified timestamp.  Concrete record
    shapes add their own fields." *)
Record Item : Type := mkItem {
  Item_ID : string;
  Item_Fields : ItemFields F;
  Item_CreatedAt : Time;
  Item_UpdatedAt : Time
}.

(** Modelled from the spec: the declaration of [models.Client] is missing;
    as for [Item]. *)
Record Client : Type := mkClient {
  Client_ID : string;
  Client_Fields : ClientFields F;
  Client_CreatedAt : Time;
  Client_UpdatedAt : Time
}.

(** Field assignments [v.ID = x], [v.CreatedAt = x], [v.UpdatedAt = x]. *)
Definition Item_set_ID (x : string) (v : Item) : Item :=
  mkItem x (Item_Fields v) (Item_CreatedAt v) (Item_UpdatedAt v).
Definition Item_set_CreatedAt (x : Time) (v : Item) : Item :=
  mkItem (Item_ID v) (Item_Fields v) x (Item_UpdatedAt v).
Definition Item_set_UpdatedAt (x : Time) (v : Item) : Item :=
  mkItem (Item_ID v) (Item_Fields v) (Item_CreatedAt v) x.

Definition Client_set_ID (x : string) (v : Client) : Client :=
  mkClient x (Client_Fields v) (Client_CreatedAt v) (Client_UpdatedAt v).
Definition Client_set_CreatedAt (x : Time) (v : Client) : Client :=
  mkClient (Client_ID v) (Client_Fields v) x (Client_UpdatedAt v).
Definition Client_set_UpdatedAt (x : Time) (v : Client) : Client :=
  mkClient (Client_ID v) (Client_Fields v) (Client_CreatedAt v) x.

End Shapes.
Global Arguments Item : clear implicits.
Global Arguments Client : clear implicits.
End models.

Import models.

(** ** The type parameter [T]

    [MemoryStore[T any]] may be instantiated at any type.  A record shape
    other than the two of package [models] is described by its carrier, its
    zero value, and the accessors of the three fields every record shape
    carries (identifier, creation and modification timestamps). *)
Record RecordShape : Type := mkShape {
  carrier : Type;
  carrier_zero : carrier;
  carrier_ID : carrier → string;
  carrier_CreatedAt : carrier → Time;
  carrier_UpdatedAt : carrier → Time
}.

(** The dynamic type seen by [switch v := any(&data).(type)]:
    [*models.Item], [*models.Client], or anything else.  A defined type
    with the same fields as [models.Item] is a different type, and falls
    under [TOther]. *)
Inductive TypeParam (F : OwnFields) : Type :=
| TItem
| TClient
| TOther (R : RecordShape).
Global Arguments TItem {F}.
Global Arguments TClient {F}.
Global Arguments TOther {F} _.

Section Store.

Context {F : OwnFields}.

Local Abbreviation Item := (Item F).
Local Abbreviation Client := (Client F).
Local Abbreviation TypeParam := (TypeParam F).

(** The values of type [T]. *)
Definition T (p : TypeParam) : Type :=
  match p with
  | TItem => Item
  | TClient => Client
  | TOther R => carrier R
  end.

(** [var zero T] *)
Definition zero (p : TypeParam) : T p :=
  match p with
  | TItem => mkItem "" (zero_ItemFields F) zero_Time zero_Time
  | TClient => mkClient "" (zero_ClientFields F) zero_Time zero_Time
  | TOther R => carrier_zero R
  end.

(** The identifier and the timestamps of a record of any shape. *)
Definition rec_ID (p : TypeParam) : T p → string :=
  match p with
  | TItem => Item_ID
  | TClient => Client_ID
  | TOther R => carrier_ID R
  end.

Definition rec_CreatedAt (p : TypeParam) : T p → Time :=
  match p with
  | TItem => Item_CreatedAt
  | TClient => Client_CreatedAt
  | TOther R => carrier_CreatedAt R
  end.

Definition rec_UpdatedAt (p : TypeParam) : T p → Time :=
  match p with
  | TItem => Item_UpdatedAt
  | TClient => Client_UpdatedAt
  | TOther R => carrier_UpdatedAt R
  end.

(** The type switches of [Create] and [Update] list [*models.Item] and
    [*models.Client]. *)
Definition listed (p : TypeParam) : bool :=
  match p with
  | TItem | TClient => true
  | TOther _ => false
  end.

(** ** [MemoryStore[T]] *)
Record MemoryStore (p : TypeParam) : Type := mkStore {
  items : gmap string (T p)
}.
Global Arguments mkStore {p} _.
Global Arguments items {p} _.

(** [NewMemoryStore]: [items: make(map[string]T)]. *)
Definition NewMemoryStore (p : TypeParam) : MemoryStore p :=
  mkStore (∅ : gmap string (T p)).

(** [s.items[id]]: indexing a Go map yields the zero value on a missing
    key. *)
Definition index {p : TypeParam} (m : gmap string (T p)) (id : string) : T p :=
  default (zero p) (m !! id).

(** [_, exists := s.items[id]] *)
Definition exists_key {p : TypeParam} (m : gmap string (T p)) (id : string) : bool :=
  bool_decide (is_Some (m !! id)).

(** [GetAll]: the records in the order of one traversal of the map. *)
Definition GetAll {p : TypeParam} (s : MemoryStore p) : list (T p) :=
  (map_to_list (items s)).*2.

(** [range] over a Go map visits every entry once, in an order that is
    not specified: any arrangement of the entries may be returned. *)
Definition GetAll_may_return {p : TypeParam} (s : MemoryStore p)
    (out : list (T p)) : Prop :=
  out ≡ₚ GetAll s.

(** [GetByID]: [item, exists := s.items[id]; return item, exists]. *)
Definition GetByID {p : TypeParam} (s : MemoryStore p) (id : string) : T p * bool :=
  (index (items s) id, exists_key (items s) id).

(** The readings [Create] takes from the environment, in program order:
    [uuid.New().String()], then [time.Now()] twice. *)
Record CreateEnv : Type := mkCreateEnv {
  uuid_New_String : string;
  time_Now_1 : Time;
  time_Now_2 : Time
}.

(** [Create].  In the listed cases [v] points to [data], so the
    assignments through [v] are visible in the [data] that is returned. *)
Definition Create {p : TypeParam} (s : MemoryStore p) (data : T p)
    (e : CreateEnv) : T p * MemoryStore p :=
  match p return MemoryStore p → T p → T p * MemoryStore p with
  | TItem => λ s data,
      let v := Item_set_ID (uuid_New_String e) data in
      let v := Item_set_CreatedAt (time_Now_1 e) v in
      let v := Item_set_UpdatedAt (time_Now_2 e) v in
      (v, mkStore (p:=TItem) (<[Item_ID v := v]> (items s)))
  | TClient => λ s data,
      let v := Client_set_ID (uuid_New_String e) data in
      let v := Client_set_CreatedAt (time_Now_1 e) v in
      let v := Client_set_UpdatedAt (time_Now_2 e) v in
      (v, mkStore (p:=TClient) (<[Client_ID v := v]> (items s)))
  | TOther R => λ s data, (data, s)
  end s data.

(** The type switch of [Update], entered once the key is known to exist;
    [now] is the reading of its one [time.Now()]. *)
Definition Update_switch {p : TypeParam} (s : MemoryStore p) (id : string)
    (data : T p) (now : Time) : T p * MemoryStore p :=
  match p return MemoryStore p → T p → T p * MemoryStore p with
  | TItem => λ s data,
      let old := index (p:=TItem) (items s) id in
      let oldItem : Item := old in
      let v := Item_set_ID id data in
      let v := Item_set_CreatedAt (Item_CreatedAt oldItem) v in
      let v := Item_set_UpdatedAt now v in
      (v, mkStore (p:=TItem) (<[id := v]> (items s)))
  | TClient => λ s data,
      let old := index (p:=TClient) (items s) id in
      let oldClient : Client := old in
      let v := Client_set_ID id data in
      let v := Client_set_CreatedAt (Client_CreatedAt oldClient) v in
      let v := Client_set_UpdatedAt now v in
      (v, mkStore (p:=TClient) (<[id := v]> (items s)))
  | TOther R => λ s data, (data, s)
  end s data.

(** [Update] *)
Definition Update {p : TypeParam} (s : MemoryStore p) (id : string)
    (data : T p) (now : Time) : (T p * bool) * MemoryStore p :=
  if negb (exists_key (items s) id) then ((zero p, false), s)
  else
    let '(data, s) := Update_switch s id data now in
    ((data, true), s).

(** [Delete] *)
Definition Delete {p : TypeParam} (s : MemoryStore p) (id : string)
    : bool * MemoryStore p :=
  if negb (exists_key (items s) id) then (false, s)
  else (true, mkStore (delete id (items s))).

(** ** Calls and reachable stores

    A call of one of the five methods of the [Store] interface, with the
    readings it takes from the environment. *)
Inductive Call (p : TypeParam) : Type :=
| CallGetAll
| CallGetByID (id : string)
| CallCreate (data : T p) (e : CreateEnv)
| CallUpdate (id : string) (data : T p) (now : Time)
| CallDelete (id : string).
Global Arguments CallGetAll {p}.
Global Arguments CallGetByID {p} _.
Global Arguments CallCreate {p} _ _.
Global Arguments CallUpdate {p} _ _ _.
Global Arguments CallDelete {p} _.

(** The store a call leaves behind. *)
Definition after {p : TypeParam} (c : Call p) (s : MemoryStore p) : MemoryStore p :=
  match c with
  | CallGetAll => s
  | CallGetByID _ => s
  | CallCreate data e => (Create s data e).2
  | CallUpdate id data now => (Update s id data now).2
  | CallDelete id => (Delete s id).2
  end.

(** What the environment guarantees about the readings of a call made when
    the clock stands at [clock]:
    - [uuid.UUID.String] returns the canonical 36-character form;
    - the clock does not run backwards, so consecutive readings of
      [time.Now()] do not decrease. *)
Definition env_ok {p : TypeParam} (clock : Time) (c : Call p) : Prop :=
  match c with
  | CallCreate _ e =>
      String.length (uuid_New_String e) = 36 ∧
      clock ≤ time_Now_1 e ∧ time_Now_1 e ≤ time_Now_2 e
  | CallUpdate _ _ now => clock ≤ now
  | _ => True
  end.

(** The clock once the call has returned. *)
Definition clock_after {p : TypeParam} (clock : Time) (c : Call p) : Time :=
  match c with
  | CallCreate _ e => time_Now_2 e
  | CallUpdate _ _ now => now
  | _ => clock
  end.

(** The stores a program can hold: [items] is unexported and no code of
    package [storage] writes it outside the methods, so a store is what
    [NewMemoryStore] returned, changed by a sequence of calls. *)
Inductive reachable {p : TypeParam} : Time → MemoryStore p → Prop :=
| reachable_new (clock : Time) :
    reachable clock (NewMemoryStore p)
| reachable_call (clock : Time) (s : MemoryStore p) (c : Call p) :
    reachable clock s →
    env_ok clock c →
    reachable (clock_after clock c) (after c s).

(** A sequence of [Create] calls; the records returned, in call order, and
    the final store. *)
Fixpoint create_all {p : TypeParam} (s : MemoryStore p)
    (calls : list (T p * CreateEnv)) : list (T p) * MemoryStore p :=
  match calls with
  | [] => ([], s)
  | (data, e) :: calls =>
      let '(r, s) := Create s data e in
      let '(rs, s) := create_all s calls in
      (r :: rs, s)
  end.

(** ** Predicates on stores *)

(** Every key maps to a record whose [ID] field is that key. *)
Definition key_field_agreement {p : TypeParam} (s : MemoryStore p) : Prop :=
  ∀ k r, items s !! k = Some r → rec_ID p r = k.



(** Stored timestamps are readings of the past: creation is not later than
    modification, and modification is not later than the clock. *)
Definition timestamps_past {p : TypeParam} (clock : Time) (s : MemoryStore p) : Prop :=
  ∀ k r, items s !! k = Some r →
    rec_CreatedAt p r ≤ rec_UpdatedAt p r ∧ rec_UpdatedAt p r ≤ clock.

(** The invariant carried along a run. *)
Definition store_inv {p : TypeParam} (clock : Time) (s : MemoryStore p) : Prop :=
  key_field_agreement s ∧
  (∀ k, is_Some (items s !! k) → k ≠ "") ∧
  timestamps_past clock s ∧
  (listed p = false → items s = ∅).

(** Two records agree on the fields the store does not assign.  For a shape
    the switch does not list, the store assigns no field at all. *)
Definition same_own_fields {p : TypeParam} : T p → T p → Prop :=
  match p with
  | TItem => λ a b, Item_Fields a = Item_Fields b
  | TClient => λ a b, Client_Fields a = Client_Fields b
  | TOther R => λ a b, a = b
  end.

End Store.

(** ** Runs of calls on one store *)

Section Runs.

Context {F : OwnFields} {p : TypeParam F}.

(** A sequence of [Update] calls on one identifier, each with the record
    passed and the reading of its [time.Now()]; the results in call order
    and the final store. *)
Fixpoint update_all (s : MemoryStore p) (id : string)
    (calls : list (T p * Time)) : list (T p * bool) * MemoryStore p :=
  match calls with
  | [] => ([], s)
  | (data, now) :: calls =>
      let '(res, s) := Update s id data now in
      let '(ress, s) := update_all s id calls in
      (res :: ress, s)
  end.

End Runs.

(** ** Package [handlers]

    [handlers/item_handler.go] and [handlers/client_handler.go] are the same
    text up to the name of the resource; the five methods are written once,
    over the type parameter and the message of the not-found response.

    A handler reads from the request the route variable [id]
    ([mux.Vars(r)["id"]]) and the outcome of decoding the body
    ([json.NewDecoder(r.Body).Decode(&item)]: the decoded record, or an
    error), and drives an [http.ResponseWriter]. *)

(** [net/http] status codes used by the handlers. *)
Definition StatusOK : nat := 200.
Definition StatusCreated : nat := 201.
Definition StatusNoContent : nat := 204.
Definition StatusBadRequest : nat := 400.
Definition StatusNotFound : nat := 404.

Section Handler.

Context {F : OwnFields} {p : TypeParam F}.

(** The values the handlers pass to [json.NewEncoder(w).Encode]: a slice of
    records, one record, or [map[string]string{"error": msg}]. *)
Inductive JSON : Type :=
| JSON_records (l : list (T p))
| JSON_record (r : T p)
| JSON_error (msg : string).

(** An [http.ResponseWriter]: the status code once the header is written,
    and the documents written to the body so far. *)
Record ResponseWriter : Type := mkWriter {
  status : option nat;
  body : list JSON
}.

(** The writer a handler is called with. *)
Definition new_writer : ResponseWriter := mkWriter None [].

(** [w.WriteHeader(code)]: the header is sent once; a later call is
    superfluous and changes nothing. *)
Definition WriteHeader (code : nat) (w : ResponseWriter) : ResponseWriter :=
  match status w with
  | None => mkWriter (Some code) (body w)
  | Some _ => w
  end.

(** [json.NewEncoder(w).Encode(v)]: one [Write] of the encoded value; a
    [Write] before any [WriteHeader] sends the header with [StatusOK]. *)
Definition Encode (v : JSON) (w : ResponseWriter) : ResponseWriter :=
  let w := WriteHeader StatusOK w in
  mkWriter (status w) (body w ++ [v]).

(** What a handler reads from [r *http.Request]. *)
Record Request : Type := mkRequest {
  Vars_id : string;
  Decode : option (T p)
}.

(** The message of the not-found response: ["Item not found"] in
    [ItemHandler], ["Client not found"] in [ClientHandler]. *)
Context (not_found : string).

(** [GetAll] handles [GET /items]. *)
Definition Handler_GetAll (s : MemoryStore p) (w : ResponseWriter)
    : ResponseWriter * MemoryStore p :=
  let items := GetAll s in
  (Encode (JSON_records items) w, s).

(** [GetByID] handles [GET /items/{id}]. *)
Definition Handler_GetByID (s : MemoryStore p) (r : Request) (w : ResponseWriter)
    : ResponseWriter * MemoryStore p :=
  let id := Vars_id r in
  let '(item, exists_) := GetByID s id in
  if negb exists_ then
    let w := WriteHeader StatusNotFound w in
    (Encode (JSON_error not_found) w, s)
  else (Encode (JSON_record item) w, s).

(** [Create] handles [POST /items]; [e] holds the readings the store's
    [Create] takes. *)
Definition Handler_Create (s : MemoryStore p) (r : Request) (e : CreateEnv)
    (w : ResponseWriter) : ResponseWriter * MemoryStore p :=
  match Decode r with
  | None =>
      let w := WriteHeader StatusBadRequest w in
      (Encode (JSON_error "Invalid request payload") w, s)
  | Some item =>
      let '(created, s) := Create s item e in
      let w := WriteHeader StatusCreated w in
      (Encode (JSON_record created) w, s)
  end.

(** [Update] handles [PUT /items/{id}]; [now] is the reading the store's
    [Update] takes. *)
Definition Handler_Update (s : MemoryStore p) (r : Request) (now : Time)
    (w : ResponseWriter) : ResponseWriter * MemoryStore p :=
  let id := Vars_id r in
  match Decode r with
  | None =>
      let w := WriteHeader StatusBadRequest w in
      (Encode (JSON_error "Invalid request payload") w, s)
  | Some item =>
      let '((updated, exists_), s) := Update s id item now in
      if negb exists_ then
        let w := WriteHeader StatusNotFound w in
        (Encode (JSON_error not_found) w, s)
      else (Encode (JSON_record updated) w, s)
  end.

(** [Delete] handles [DELETE /items/{id}]. *)
Definition Handler_Delete (s : MemoryStore p) (r : Request) (w : ResponseWriter)
    : ResponseWriter * MemoryStore p :=
  let id := Vars_id r in
  let '(deleted, s) := Delete s id in
  if negb deleted then
    let w := WriteHeader StatusNotFound w in
    (Encode (JSON_error not_found) w, s)
  else (WriteHeader StatusNoContent w, s).

(** A request to one of the five methods of a handler, with the readings
    the store takes from the environment. *)
Inductive HandlerCall : Type :=
| ServeGetAll
| ServeGetByID (r : Request)
| ServeCreate (r : Request) (e : CreateEnv)
| ServeUpdate (r : Request) (now : Time)
| ServeDelete (r : Request).

(** Serving a request with a new writer. *)
Definition serve (c : HandlerCall) (s : MemoryStore p)
    : ResponseWriter * MemoryStore p :=
  match c with
  | ServeGetAll => Handler_GetAll s new_writer
  | ServeGetByID r => Handler_GetByID s r new_writer
  | ServeCreate r e => Handler_Create s r e new_writer
  | ServeUpdate r now => Handler_Update s r now new_writer
  | ServeDelete r => Handler_Delete s r new_writer
  end.

End Handler.

Global Arguments JSON {F} p.
Global Arguments ResponseWriter {F} p.
Global Arguments Request {F} p.
Global Arguments HandlerCall {F} p.

(** [ItemHandler], with [store storage.Store[models.Item]] bound to a
    [MemoryStore] as [main] does. *)
Module ItemHandler.
Definition not_found : string := "Item not found".
Definition GetAll {F : OwnFields} := Handler_GetAll (F:=F) (p:=TItem).
Definition GetByID {F : OwnFields} := Handler_GetByID (F:=F) (p:=TItem) not_found.
Definition Create {F : OwnFields} := Handler_Create (F:=F) (p:=TItem).
Definition Update {F : OwnFields} := Handler_Update (F:=F) (p:=TItem) not_found.
Definition Delete {F : OwnFields} := Handler_Delete (F:=F) (p:=TItem) not_found.
End ItemHandler.

(** [ClientHandler], likewise. *)
Module ClientHandler.
Definition not_found : string := "Client not found".
Definition GetAll {F : OwnFields} := Handler_GetAll (F:=F) (p:=TClient).
Definition GetByID {F : OwnFields} := Handler_GetByID (F:=F) (p:=TClient) not_found.
Definition Create {F : OwnFields} := Handler_Create (F:=F) (p:=TClient).
Definition Update {F : OwnFields} := Handler_Update (F:=F) (p:=TClient) not_found.
Definition Delete {F : OwnFields} := Handler_Delete (F:=F) (p:=TClient) not_found.
End ClientHandler.

(** ** Concrete shapes used by the examples

    The own fields of the two models as the README pictures them (an item
    has a name and a description; a client a name, an e-mail address and a
    phone number), and the [Order] shape of the guide for adding resources,
    which the type switches do not list.  The guide's [Total float64] is
    left out: the store does not look at it. *)
Record ItemOwn : Type := mkItemOwn {
  Item_Name : string;
  Item_Description : string
}.

Record ClientOwn : Type := mkClientOwn {
  Client_Name : string;
  Client_Email : string;
  Client_Phone : string
}.

Record Order : Type := mkOrder {
  Order_ID : string;
  Order_ClientID : string;
  Order_ItemID : string;
  Order_Quantity : Z;
  Order_Status : string;
  Order_CreatedAt : Time;
  Order_UpdatedAt : Time
}.

Definition zero_ItemOwn : ItemOwn := mkItemOwn "" "".
Definition zero_ClientOwn : ClientOwn := mkClientOwn "" "" "".
Definition zero_Order : Order := mkOrder "" "" "" 0 "" zero_Time zero_Time.

Definition OrderShape : RecordShape :=
  mkShape Order zero_Order Order_ID Order_CreatedAt Order_UpdatedAt.

(** The three instantiations [MemoryStore[models.Item]],
    [MemoryStore[models.Client]] and [MemoryStore[models.Order]]. *)
Definition Own : OwnFields :=
  mkOwnFields ItemOwn zero_ItemOwn ClientOwn zero_ClientOwn.

Definition PItem : TypeParam Own := TItem.
Definition PClient : TypeParam Own := TClient.
Definition POrder : TypeParam Own := TOther OrderShape.

(** Two identifiers in the canonical form of [uuid.UUID.String]. *)
Definition uuid_a : string := "123e4567-e89b-42d3-a456-426614174000".
Definition uuid_b : string := "9b2f6c1e-0d4a-4c8e-b7f3-5a1d2e3f4a5b".

(** The item of the README's first request, as decoded from
    [{"name":"Laptop","description":"MacBook Pro 16-inch"}]. *)
Definition laptop : Item Own :=
  mkItem (F:=Own) "" (mkItemOwn "Laptop" "MacBook Pro 16-inch") zero_Time zero_Time.

Definition laptop_pro : Item Own :=
  mkItem (F:=Own) "" (mkItemOwn "Laptop Pro" "") zero_Time zero_Time.

(** An order as decoded from the guide's request; its [id] is absent from
    the payload, hence empty. *)
Definition pending_order : Order :=
  mkOrder "" "abc" "xyz" 2 "pending" zero_Time zero_Time.

(** Readings of the environment: a first [Create] that reads the clock at
    3 and at 5, a second one that reads 8 twice. *)
Definition env_a : CreateEnv := mkCreateEnv uuid_a 3 5.
Definition env_b : CreateEnv := mkCreateEnv uuid_b 8 8.

(** The item store after [Create(laptop)] on a new store. *)
Definition laptop_store : MemoryStore PItem :=
  (Create (NewMemoryStore PItem) laptop env_a).2.

(** The record that call returned. *)
Definition stored_laptop : Item Own :=
  (Create (NewMemoryStore PItem) laptop env_a).1.

(** The call that produced it. *)
Definition create_laptop : Call PItem := CallCreate (p:=PItem) laptop env_a.

(** Two [Create] calls on an item store, and two on an order store. *)
Definition two_items : list (T PItem * CreateEnv) :=
  [(laptop, env_a); (laptop_pro, env_b)].

Definition two_orders : list (T POrder * CreateEnv) :=
  [(pending_order, env_a); (pending_order, env_b)].

(** An order store after one [Create] call. *)
Definition create_order : Call POrder := CallCreate (p:=POrder) pending_order env_a.

Definition order_store : MemoryStore POrder :=
  after create_order (NewMemoryStore POrder).

(** A first [Update] call on the laptop, which sends the same fields
    again at 7. *)
Definition earlier_updates : list (T PItem * Time) := [(laptop, 7)].

(** Requests: [POST /items] with the laptop, [GET], [PUT] and [DELETE] on
    [/items/{uuid_a}], the [PUT] once with a decodable and once with an
    undecodable body. *)
Definition post_laptop : Request PItem := mkRequest (p:=PItem) "" (Some laptop).
Definition get_a : Request PItem := mkRequest (p:=PItem) uuid_a None.
Definition put_a : Request PItem := mkRequest (p:=PItem) uuid_a (Some laptop_pro).
Definition put_a_undecodable : Request PItem := mkRequest (p:=PItem) uuid_a None.

(** * Properties *)

Section Properties.

Context {F : OwnFields}.

Implicit Types (p : TypeParam F) (id k : string) (clock now : Time).

(** *** The comma-ok lookup *)

Lemma exists_key_Some p (m : gmap string (T p)) id r :
  m !! id = Some r → exists_key m id = true.
Proof. intros H. unfold exists_key. apply bool_decide_eq_true. eauto. Qed.

Lemma exists_key_None p (m : gmap string (T p)) id :
  m !! id = None → exists_key m id = false.
Proof.
  intros H. unfold exists_key. apply bool_decide_eq_false.
  rewrite H. apply is_Some_None.
Qed.

Lemma index_Some p (m : gmap string (T p)) id r :
  m !! id = Some r → index m id = r.
Proof. intros H. unfold index. by rewrite H. Qed.

Lemma GetByID_Some p (s : MemoryStore p) id r :
  items s !! id = Some r → GetByID s id = (r, true).
Proof.
  intros H. unfold GetByID.
  by rewrite (index_Some _ _ _ _ H), (exists_key_Some _ _ _ _ H).
Qed.

Lemma GetByID_None p (s : MemoryStore p) id :
  items s !! id = None → GetByID s id = (zero p, false).
Proof.
  intros H. unfold GetByID, index.
  by rewrite (exists_key_None _ _ _ H), H.
Qed.

(** *** [Create], case by case *)

Lemma Create_listed p (s : MemoryStore p) (data : T p) (e : CreateEnv) :
  listed p = true →
  ∃ r, Create s data e = (r, mkStore (<[uuid_New_String e := r]> (items s))) ∧
       rec_ID p r = uuid_New_String e ∧
       rec_CreatedAt p r = time_Now_1 e ∧
       rec_UpdatedAt p r = time_Now_2 e ∧
       same_own_fields r data.
Proof.
  destruct p as [| |R]; simpl; intros Hl; try discriminate;
    eexists; (split; [reflexivity|]); simpl; auto.
Qed.

Lemma Create_unlisted p (s : MemoryStore p) (data : T p) (e : CreateEnv) :
  listed p = false → Create s data e = (data, s).
Proof. destruct p; simpl; intros Hl; try discriminate; reflexivity. Qed.

(** *** [Update] and [Delete], case by case *)

Lemma Update_absent p (s : MemoryStore p) id (data : T p) now :
  items s !! id = None → Update s id data now = ((zero p, false), s).
Proof.
  intros H. unfold Update. by rewrite (exists_key_None _ _ _ H).
Qed.

Lemma Update_present_listed p (s : MemoryStore p) id (data prev : T p) now :
  listed p = true →
  items s !! id = Some prev →
  ∃ r, Update s id data now = ((r, true), mkStore (<[id := r]> (items s))) ∧
       rec_ID p r = id ∧
       rec_CreatedAt p r = rec_CreatedAt p prev ∧
       rec_UpdatedAt p r = now ∧
       same_own_fields r data.
Proof.
  intros Hl H. unfold Update. rewrite (exists_key_Some _ _ _ _ H). simpl.
  destruct p as [| |R]; simpl in *; try discriminate.
  - rewrite (index_Some TItem _ _ _ H).
    eexists; (split; [reflexivity|]); simpl; auto.
  - rewrite (index_Some TClient _ _ _ H).
    eexists; (split; [reflexivity|]); simpl; auto.
Qed.

Lemma Update_present_unlisted p (s : MemoryStore p) id (data prev : T p) now :
  listed p = false →
  items s !! id = Some prev →
  Update s id data now = ((data, true), s).
Proof.
  intros Hl H. unfold Update. rewrite (exists_key_Some _ _ _ _ H). simpl.
  destruct p; simpl in *; try discriminate; reflexivity.
Qed.

Lemma Delete_absent p (s : MemoryStore p) id :
  items s !! id = None → Delete s id = (false, s).
Proof.
  intros H. unfold Delete. by rewrite (exists_key_None _ _ _ H).
Qed.

Lemma Delete_present p (s : MemoryStore p) id r :
  items s !! id = Some r → Delete s id = (true, mkStore (delete id (items s))).
Proof.
  intros H. unfold Delete. by rewrite (exists_key_Some _ _ _ _ H).
Qed.

(** *** The invariant along a run *)

Lemma canonical_not_empty (u : string) : String.length u = 36 → u ≠ "".
Proof. intros H ->. discriminate H. Qed.

Lemma store_inv_new p clock : store_inv clock (NewMemoryStore p).
Proof.
  unfold store_inv, key_field_agreement, timestamps_past. simpl.
  split; [|split; [|split]].
  - intros k r H. by rewrite lookup_empty in H.
  - intros k [r H]. by rewrite lookup_empty in H.
  - intros k r H. by rewrite lookup_empty in H.
  - done.
Qed.

Lemma store_inv_later p clock clock' (s : MemoryStore p) :
  clock ≤ clock' → store_inv clock s → store_inv clock' s.
Proof.
  intros Hle (Hk & Hne & Ht & Hu). repeat split; auto.
  - by apply (Ht k r).
  - destruct (Ht k r) as [_ ?]; [done | lia].
Qed.

Lemma store_inv_insert p clock clock' (s : MemoryStore p) id (r : T p) :
  listed p = true →
  clock ≤ clock' →
  rec_ID p r = id → id ≠ "" →
  rec_CreatedAt p r ≤ rec_UpdatedAt p r → rec_UpdatedAt p r ≤ clock' →
  store_inv clock s →
  store_inv clock' (mkStore (<[id := r]> (items s))).
Proof.
  intros Hl Hle Hid Hne Hcu Hu (Hk & Hn & Ht & _).
  unfold store_inv, key_field_agreement, timestamps_past. simpl.
  split; [|split; [|split]].
  - intros k r' [[<- <-]|[? H]]%lookup_insert_Some; eauto.
  - intros k [r' [[<- <-]|[? H]]%lookup_insert_Some]; eauto.
  - intros k r' [[<- <-]|[? H]]%lookup_insert_Some; [done|].
    destruct (Ht k r' H). lia.
  - intros Hf. congruence.
Qed.

Lemma store_inv_delete p clock (s : MemoryStore p) id :
  store_inv clock s → store_inv clock (mkStore (delete id (items s))).
Proof.
  intros (Hk & Hn & Ht & Hu).
  unfold store_inv, key_field_agreement, timestamps_past. simpl.
  split; [|split; [|split]].
  - intros k r [_ H]%lookup_delete_Some. eauto.
  - intros k [r [_ H]%lookup_delete_Some]. eauto.
  - intros k r [_ H]%lookup_delete_Some. eauto.
  - intros Hf. rewrite (Hu Hf). apply delete_empty.
Qed.

Lemma store_inv_call p clock (s : MemoryStore p) (c : Call p) :
  store_inv clock s → env_ok clock c →
  store_inv (clock_after clock c) (after c s).
Proof.
  intros Hinv Hok. destruct c as [|id|data e|id data now|id]; simpl in *.
  - done.
  - done.
  - destruct Hok as (Hu & H1 & H2).
    destruct (listed p) eqn:Hl.
    + destruct (Create_listed p s data e Hl) as (r & -> & Hid & Hc & Hup & _).
      simpl. apply (store_inv_insert p clock); auto; try lia.
      by apply canonical_not_empty.
    + rewrite (Create_unlisted p s data e Hl). simpl.
      apply (store_inv_later p clock); [lia | done].
  - destruct (items s !! id) as [prev|] eqn:Hprev.
    + destruct (listed p) eqn:Hl.
      * destruct (Update_present_listed p s id data prev now Hl Hprev)
          as (r & -> & Hid & Hc & Hup & _).
        simpl. destruct Hinv as (Hk & Hn & Ht & Hu).
        destruct (Ht id prev Hprev) as [Hcu Hpast].
        apply (store_inv_insert p clock);
          [done | lia | done | apply Hn; eauto | lia | lia
          | exact (conj Hk (conj Hn (conj Ht Hu)))].
      * rewrite (Update_present_unlisted p s id data prev now Hl Hprev). simpl.
        by apply (store_inv_later p clock).
    + rewrite (Update_absent p s id data now Hprev). simpl.
      by apply (store_inv_later p clock).
  - destruct (items s !! id) as [prev|] eqn:Hprev.
    + rewrite (Delete_present p s id prev Hprev). simpl.
      by apply store_inv_delete.
    + by rewrite (Delete_absent p s id Hprev).
Qed.

Lemma reachable_store_inv p clock (s : MemoryStore p) :
  reachable clock s → store_inv clock s.
Proof.
  induction 1 as [clock|clock s c _ IH Hok].
  - apply store_inv_new.
  - by apply store_inv_call.
Qed.



Lemma reachable_unlisted_empty p clock (s : MemoryStore p) :
  listed p = false → reachable clock s → items s = ∅.
Proof. intros Hl Hr. by apply (reachable_store_inv p clock s Hr). Qed.

Lemma GetAll_lookup p (s : MemoryStore p) (out : list (T p)) (r : T p) :
  GetAll_may_return s out → r ∈ out → ∃ k, items s !! k = Some r.
Proof.
  unfold GetAll_may_return, GetAll. intros Hperm Hin.
  rewrite Hperm in Hin.
  apply list_elem_of_fmap in Hin as ([k r'] & -> & Hin).
  exists k. by apply elem_of_map_to_list.
Qed.

(** ** The claims *)

(** C1. For a store a program can hold and an identifier [id] present in
    it, [Update id raw] returns a record whose identifier is [id], whose
    creation timestamp is that of the record stored before, whose
    modification timestamp is not earlier than the one stored before, and
    whose own fields are those of [raw]. *)
Theorem Update_existing_record p clock (s : MemoryStore p) id (raw prev : T p) now :
  reachable clock s →
  items s !! id = Some prev →
  clock ≤ now →
  ∃ r, (Update s id raw now).1 = (r, true) ∧
       rec_ID p r = id ∧
       rec_CreatedAt p r = rec_CreatedAt p prev ∧
       rec_UpdatedAt p prev ≤ rec_UpdatedAt p r ∧
       same_own_fields r raw.
Proof.
  intros Hreach Hprev Hnow.
  pose proof (reachable_store_inv p clock s Hreach) as (_ & _ & Ht & Hu).
  destruct (listed p) eqn:Hl.
  - destruct (Update_present_listed p s id raw prev now Hl Hprev)
      as (r & Heq & Hid & Hc & Hup & Hown).
    exists r. rewrite Heq. simpl. repeat split; auto.
    destruct (Ht id prev Hprev). lia.
  - rewrite (Hu eq_refl), lookup_empty in Hprev. discriminate.
Qed.

(** C4. For a store a program can hold, of any record shape, and an
    identifier [id] present in it, [Update id raw] reports found and
    replaces the entry under [id] by the record it returns: that record is
    built from [raw] and the reading [now] (the own fields of [raw], the
    modification timestamp [now], the identifier [id] and the creation
    timestamp of the record held before), the map afterwards is the map
    before with this record written under [id], and [GetByID id] then
    yields exactly this record. *)
Theorem Update_existing_stored p clock (s : MemoryStore p) id (raw prev : T p) now :
  reachable clock s →
  items s !! id = Some prev →
  ∃ r s', Update s id raw now = ((r, true), s') ∧
          same_own_fields r raw ∧
          rec_UpdatedAt p r = now ∧
          rec_ID p r = id ∧
          rec_CreatedAt p r = rec_CreatedAt p prev ∧
          items s' = <[id := r]> (items s) ∧
          items s' !! id = Some r ∧
          GetByID s' id = (r, true).
Proof.
  intros Hreach Hprev.
  destruct (listed p) eqn:Hl.
  - destruct (Update_present_listed p s id raw prev now Hl Hprev)
      as (r & Heq & Hid & Hc & Hu & Hown).
    exists r, (mkStore (<[id := r]> (items s))).
    assert (items (mkStore (<[id := r]> (items s))) !! id = Some r) as Hr
      by apply lookup_insert_eq.
    repeat split; auto. by apply GetByID_Some.
  - rewrite (reachable_unlisted_empty p clock s Hl Hreach), lookup_empty in Hprev.
    discriminate.
Qed.

(** C5. For every store and every identifier absent from it, [Update]
    reports not found and [Delete] returns false, and each leaves the store
    as it was: same map, hence same size, same keys, same records. *)
Theorem absent_id_no_mutation p (s : MemoryStore p) id (raw : T p) now :
  items s !! id = None →
  Update s id raw now = ((zero p, false), s) ∧
  Delete s id = (false, s) ∧
  size (items (Update s id raw now).2) = size (items s) ∧
  size (items (Delete s id).2) = size (items s).
Proof.
  intros H.
  rewrite (Update_absent p s id raw now H), (Delete_absent p s id H). auto.
Qed.

(** C6. For a store a program can hold and an identifier [id] present in
    it, [Delete id] returns true; afterwards [GetByID id] reports not
    found, no record returned by [GetAll] (whatever the traversal order) has
    identifier [id], and the entries under the other keys are as before. *)
Theorem Delete_existing p clock (s : MemoryStore p) id :
  reachable clock s →
  is_Some (items s !! id) →
  ∃ s', Delete s id = (true, s') ∧
        GetByID s' id = (zero p, false) ∧
        (∀ out r, GetAll_may_return s' out → r ∈ out → rec_ID p r ≠ id) ∧
        (∀ k, k ≠ id → items s' !! k = items s !! k).
Proof.
  intros Hreach [prev Hprev].
  pose proof (reachable_store_inv p clock s Hreach) as (Hk & _).
  exists (mkStore (delete id (items s))).
  split; [by apply (Delete_present p s id prev)|].
  split; [apply GetByID_None; apply lookup_delete_eq|].
  split.
  - intros out r Hout Hin.
    destruct (GetAll_lookup p _ out r Hout Hin) as [k Hr]. simpl in Hr.
    apply lookup_delete_Some in Hr as [Hne Hr].
    rewrite (Hk k r Hr). congruence.
  - intros k Hne. simpl. by apply lookup_delete_ne.
Qed.

(** *** Sequences of [Create] *)

Lemma create_all_cons p (s : MemoryStore p) (data : T p) (e : CreateEnv)
    (calls : list (T p * CreateEnv)) :
  (create_all s ((data, e) :: calls)).1 =
  (Create s data e).1 :: (create_all (Create s data e).2 calls).1.
Proof.
  simpl. destruct (Create s data e) as [r s1]. simpl.
  by destruct (create_all s1 calls) as [rs s2].
Qed.

Lemma create_all_listed p (calls : list (T p * CreateEnv)) :
  listed p = true →
  ∀ s : MemoryStore p,
    rec_ID p <$> (create_all s calls).1 = (uuid_New_String ∘ snd) <$> calls ∧
    rec_CreatedAt p <$> (create_all s calls).1 = (time_Now_1 ∘ snd) <$> calls ∧
    rec_UpdatedAt p <$> (create_all s calls).1 = (time_Now_2 ∘ snd) <$> calls.
Proof.
  intros Hl. induction calls as [|[data e] calls IH]; intros s.
  - done.
  - rewrite create_all_cons.
    destruct (Create_listed p s data e Hl) as (r & Heq & Hid & Hc & Hu & _).
    rewrite Heq. cbn [fst snd]. rewrite !fmap_cons.
    destruct (IH (mkStore (<[uuid_New_String e := r]> (items s)))) as (-> & -> & ->).
    by rewrite Hid, Hc, Hu.
Qed.

(** C2 (amended to the shapes the type switch lists).  For every sequence
    of [Create] calls on a new store of items or of clients, the identifier
    and the two timestamps of each returned record are the readings that
    call took from the environment, whatever the caller supplied in those
    fields; hence every returned identifier is non-empty, and the returned
    identifiers are pairwise distinct as soon as the generator's draws
    are. *)
Theorem create_all_identifiers p (calls : list (T p * CreateEnv)) :
  listed p = true →
  Forall (λ c, String.length (uuid_New_String c.2) = 36) calls →
  let out := (create_all (NewMemoryStore p) calls).1 in
  rec_ID p <$> out = (uuid_New_String ∘ snd) <$> calls ∧
  rec_CreatedAt p <$> out = (time_Now_1 ∘ snd) <$> calls ∧
  rec_UpdatedAt p <$> out = (time_Now_2 ∘ snd) <$> calls ∧
  Forall (λ r, rec_ID p r ≠ "") out ∧
  (NoDup ((uuid_New_String ∘ snd) <$> calls) → NoDup (rec_ID p <$> out)).
Proof.
  intros Hl Hcanon out.
  destruct (create_all_listed p calls Hl (NewMemoryStore p)) as (Hid & Hc & Hu).
  fold out in Hid, Hc, Hu.
  repeat split; auto.
  - apply Forall_forall. intros r Hr.
    apply (list_elem_of_fmap_2 (rec_ID p)) in Hr. rewrite Hid in Hr.
    apply list_elem_of_fmap in Hr as ([data e] & -> & Hin).
    apply canonical_not_empty.
    by apply (proj1 (Forall_forall _ _) Hcanon (data, e)).
  - intros Hnd. by rewrite Hid.
Qed.

(** C3 (amended to the shapes the type switch lists).  For every store of
    items or of clients and every raw record, [Create] followed by
    [GetByID] on the identifier of the returned record reports found and
    yields the very record [Create] returned. *)
Theorem Create_then_GetByID p (s : MemoryStore p) (raw : T p) (e : CreateEnv) :
  listed p = true →
  GetByID (Create s raw e).2 (rec_ID p (Create s raw e).1) = ((Create s raw e).1, true).
Proof.
  intros Hl.
  destruct (Create_listed p s raw e Hl) as (r & -> & Hid & _). simpl.
  apply GetByID_Some. simpl. rewrite Hid. apply lookup_insert_eq.
Qed.

(** C7 (amended).  For every raw item, the record returned by [Create] has
    a non-empty identifier; its creation timestamp is the first and its
    modification timestamp the second of the two clock readings the call
    takes, so the creation timestamp is not later than the modification
    timestamp, and the two are equal exactly when the two readings are. *)
Theorem Create_item_timestamps (s : MemoryStore (TItem (F:=F))) (raw : Item F)
    (e : CreateEnv) :
  String.length (uuid_New_String e) = 36 →
  time_Now_1 e ≤ time_Now_2 e →
  let r : Item F := (Create s raw e).1 in
  Item_ID r ≠ "" ∧
  Item_CreatedAt r = time_Now_1 e ∧
  Item_UpdatedAt r = time_Now_2 e ∧
  Item_CreatedAt r ≤ Item_UpdatedAt r ∧
  (Item_CreatedAt r = Item_UpdatedAt r ↔ time_Now_1 e = time_Now_2 e).
Proof.
  intros Hcanon Hle r. subst r. simpl.
  split; [by apply canonical_not_empty|].
  repeat split; auto.
Qed.


(** C9. For a type parameter other than [models.Item] and [models.Client],
    [Create] returns its argument as it was passed and leaves the store as
    it was: nothing is assigned and nothing is inserted. *)
Theorem Create_other_shape (R : RecordShape) (s : MemoryStore (TOther (F:=F) R))
    (data : carrier R) (e : CreateEnv) :
  Create s data e = (data, s) ∧
  items (Create s data e).2 = items s.
Proof. split; reflexivity. Qed.

(** *** Key-field agreement *)

Lemma key_field_agreement_insert p (s : MemoryStore p) id (r : T p) :
  rec_ID p r = id → key_field_agreement s →
  key_field_agreement (mkStore (<[id := r]> (items s))).
Proof.
  intros Hid Hk k r'. simpl.
  intros [[<- <-]|[_ H]]%lookup_insert_Some; eauto.
Qed.

Lemma key_field_agreement_delete p (s : MemoryStore p) id :
  key_field_agreement s → key_field_agreement (mkStore (delete id (items s))).
Proof. intros Hk k r. simpl. intros [_ H]%lookup_delete_Some. eauto. Qed.

(** C10. For stores of items and of clients, every key of the map maps to a
    record whose [ID] field is that key: this holds of the new store, and
    [Create], [Update] and [Delete] preserve it. *)
Theorem key_field_agreement_preserved p :
  listed p = true →
  key_field_agreement (NewMemoryStore p) ∧
  ∀ s : MemoryStore p, key_field_agreement s →
    (∀ data e, key_field_agreement (Create s data e).2) ∧
    (∀ id data now, key_field_agreement (Update s id data now).2) ∧
    (∀ id, key_field_agreement (Delete s id).2).
Proof.
  intros Hl. split.
  - intros k r H. simpl in H. by rewrite lookup_empty in H.
  - intros s Hk. split; [|split].
    + intros data e.
      destruct (Create_listed p s data e Hl) as (r & -> & Hid & _). simpl.
      by apply key_field_agreement_insert.
    + intros id data now.
      destruct (items s !! id) as [prev|] eqn:Hprev.
      * destruct (Update_present_listed p s id data prev now Hl Hprev)
          as (r & -> & Hid & _).
        simpl. by apply key_field_agreement_insert.
      * by rewrite (Update_absent p s id data now Hprev).
    + intros id.
      destruct (items s !! id) as [prev|] eqn:Hprev.
      * rewrite (Delete_present p s id prev Hprev). simpl.
        by apply key_field_agreement_delete.
      * by rewrite (Delete_absent p s id Hprev).
Qed.

End Properties.

(** * The properties on concrete runs *)

Lemma laptop_store_lookup : items laptop_store !! uuid_a = Some stored_laptop.
Proof. apply lookup_insert_eq. Qed.

Lemma env_a_ok : env_ok 0 create_laptop.
Proof. simpl. repeat split; lia. Qed.

Lemma laptop_store_reachable : reachable 5 laptop_store.
Proof.
  exact (reachable_call 0 (NewMemoryStore PItem) create_laptop
           (reachable_new 0) env_a_ok).
Qed.

(** The scenario of the README: create the laptop, replace it, delete it. *)
Example scenario_create :
  stored_laptop = mkItem (F:=Own) uuid_a (mkItemOwn "Laptop" "MacBook Pro 16-inch") 3 5.
Proof. reflexivity. Qed.

Example scenario_update :
  (Update laptop_store uuid_a laptop_pro 9).1 =
  (mkItem (F:=Own) uuid_a (mkItemOwn "Laptop Pro" "") 3 9, true).
Proof.
  destruct (Update_present_listed PItem laptop_store uuid_a laptop_pro
              stored_laptop 9 eq_refl laptop_store_lookup) as (r & Heq & Hid & Hc & Hu & Hf).
  rewrite Heq. simpl in *. destruct r as [i f c u]. simpl in *. by subst.
Qed.

Example scenario_delete :
  GetByID (Delete laptop_store uuid_a).2 uuid_a = (zero PItem, false).
Proof.
  rewrite (Delete_present PItem laptop_store uuid_a stored_laptop laptop_store_lookup).
  apply GetByID_None. apply lookup_delete_eq.
Qed.

Lemma Update_existing_record_witness :
  ∃ r, (Update laptop_store uuid_a laptop_pro 9).1 = (r, true) ∧
       rec_ID PItem r = uuid_a ∧
       rec_CreatedAt PItem r = rec_CreatedAt PItem stored_laptop ∧
       rec_UpdatedAt PItem stored_laptop ≤ rec_UpdatedAt PItem r ∧
       same_own_fields r laptop_pro.
Proof.
  apply (Update_existing_record PItem 5 laptop_store uuid_a laptop_pro stored_laptop 9).
  - exact laptop_store_reachable.
  - exact laptop_store_lookup.
  - lia.
Defined.

Lemma Update_existing_stored_witness :
  ∃ r s', Update laptop_store uuid_a laptop_pro 9 = ((r, true), s') ∧
          same_own_fields r (laptop_pro : T PItem) ∧
          rec_UpdatedAt PItem r = 9 ∧
          rec_ID PItem r = uuid_a ∧
          rec_CreatedAt PItem r = rec_CreatedAt PItem stored_laptop ∧
          items s' = <[uuid_a := r]> (items laptop_store) ∧
          items s' !! uuid_a = Some r ∧
          GetByID s' uuid_a = (r, true).
Proof.
  apply (Update_existing_stored PItem 5 laptop_store uuid_a laptop_pro
           stored_laptop 9).
  - exact laptop_store_reachable.
  - exact laptop_store_lookup.
Defined.

Lemma absent_id_no_mutation_witness :
  Update (NewMemoryStore PItem) uuid_a laptop_pro 9
    = ((zero PItem, false), NewMemoryStore PItem) ∧
  Delete (NewMemoryStore PItem) uuid_a = (false, NewMemoryStore PItem) ∧
  size (items (Update (NewMemoryStore PItem) uuid_a laptop_pro 9).2)
    = size (items (NewMemoryStore PItem)) ∧
  size (items (Delete (NewMemoryStore PItem) uuid_a).2)
    = size (items (NewMemoryStore PItem)).
Proof.
  apply (absent_id_no_mutation PItem (NewMemoryStore PItem) uuid_a laptop_pro 9).
  apply lookup_empty.
Defined.

Lemma Delete_existing_witness :
  ∃ s', Delete laptop_store uuid_a = (true, s') ∧
        GetByID s' uuid_a = (zero PItem, false) ∧
        (∀ out r, GetAll_may_return s' out → r ∈ out → rec_ID PItem r ≠ uuid_a) ∧
        (∀ k, k ≠ uuid_a → items s' !! k = items laptop_store !! k).
Proof.
  apply (Delete_existing PItem 5 laptop_store uuid_a).
  - exact laptop_store_reachable.
  - exists stored_laptop. exact laptop_store_lookup.
Defined.

(** C2, as stated, fails for a shape the switch does not list: two orders
    created on a new store both come back with the empty identifier the
    caller supplied. *)
Lemma create_all_Order_identifiers :
  rec_ID POrder <$>
    (create_all (NewMemoryStore POrder) two_orders).1 = [""; ""] ∧
  ¬ Forall (λ r, rec_ID POrder r ≠ "")
      (create_all (NewMemoryStore POrder) two_orders).1 ∧
  ¬ NoDup (rec_ID POrder <$>
      (create_all (NewMemoryStore POrder) two_orders).1).
Proof.
  split; [reflexivity|]. split.
  - intros H. apply Forall_cons in H as [H _]. by apply H.
  - intros H. apply NoDup_cons in H as [H _]. apply H. simpl. left.
Qed.

Lemma create_all_identifiers_witness :
  rec_ID PItem <$> (create_all (NewMemoryStore PItem) two_items).1
    = (uuid_New_String ∘ snd) <$> two_items ∧
  rec_CreatedAt PItem <$> (create_all (NewMemoryStore PItem) two_items).1
    = (time_Now_1 ∘ snd) <$> two_items ∧
  rec_UpdatedAt PItem <$> (create_all (NewMemoryStore PItem) two_items).1
    = (time_Now_2 ∘ snd) <$> two_items ∧
  Forall (λ r, rec_ID PItem r ≠ "")
    (create_all (NewMemoryStore PItem) two_items).1 ∧
  (NoDup ((uuid_New_String ∘ snd) <$> two_items) →
   NoDup (rec_ID PItem <$> (create_all (NewMemoryStore PItem) two_items).1)).
Proof.
  apply (create_all_identifiers PItem two_items).
  - reflexivity.
  - repeat constructor.
Defined.

(** C3, as stated, fails for a shape the switch does not list: the order is
    not inserted, so looking up the identifier of the returned record
    reports not found. *)
Lemma Create_then_GetByID_Order :
  GetByID (Create (NewMemoryStore POrder) pending_order env_a).2
          (rec_ID POrder (Create (NewMemoryStore POrder) pending_order env_a).1)
    = (zero_Order, false) ∧
  GetByID (Create (NewMemoryStore POrder) pending_order env_a).2
          (rec_ID POrder (Create (NewMemoryStore POrder) pending_order env_a).1)
    ≠ ((Create (NewMemoryStore POrder) pending_order env_a).1, true).
Proof.
  assert (GetByID (Create (NewMemoryStore POrder) pending_order env_a).2
            (rec_ID POrder (Create (NewMemoryStore POrder) pending_order env_a).1)
          = (zero_Order, false)) as H.
  { apply (GetByID_None POrder). apply lookup_empty. }
  split; [exact H|]. rewrite H. intros Heq. discriminate Heq.
Qed.

Lemma Create_then_GetByID_witness :
  GetByID (Create (NewMemoryStore PItem) laptop env_a).2
          (rec_ID PItem (Create (NewMemoryStore PItem) laptop env_a).1)
    = ((Create (NewMemoryStore PItem) laptop env_a).1, true).
Proof.
  apply (Create_then_GetByID PItem (NewMemoryStore PItem) laptop env_a).
  reflexivity.
Defined.

(** C7, as stated, fails when the clock advances between the two readings
    of [Create]: the item is created at 3 and modified at 5. *)
Lemma Create_item_timestamps_differ :
  Item_CreatedAt (Create (NewMemoryStore PItem) laptop env_a).1 = 3 ∧
  Item_UpdatedAt (Create (NewMemoryStore PItem) laptop env_a).1 = 5 ∧
  Item_CreatedAt (Create (NewMemoryStore PItem) laptop env_a).1
    ≠ Item_UpdatedAt (Create (NewMemoryStore PItem) laptop env_a).1.
Proof. simpl. repeat split. lia. Qed.

Lemma Create_item_timestamps_witness :
  Item_ID (Create (NewMemoryStore PItem) laptop env_b).1 ≠ "" ∧
  Item_CreatedAt (Create (NewMemoryStore PItem) laptop env_b).1 = 8 ∧
  Item_UpdatedAt (Create (NewMemoryStore PItem) laptop env_b).1 = 8 ∧
  Item_CreatedAt (Create (NewMemoryStore PItem) laptop env_b).1
    ≤ Item_UpdatedAt (Create (NewMemoryStore PItem) laptop env_b).1 ∧
  (Item_CreatedAt (Create (NewMemoryStore PItem) laptop env_b).1
     = Item_UpdatedAt (Create (NewMemoryStore PItem) laptop env_b).1 ↔ 8 = 8).
Proof.
  apply (Create_item_timestamps (NewMemoryStore PItem) laptop env_b).
  - reflexivity.
  - simpl. lia.
Defined.


Lemma key_field_agreement_preserved_witness :
  key_field_agreement (NewMemoryStore PClient) ∧
  ∀ s : MemoryStore PClient, key_field_agreement s →
    (∀ data e, key_field_agreement (Create s data e).2) ∧
    (∀ id data now, key_field_agreement (Update s id data now).2) ∧
    (∀ id, key_field_agreement (Delete s id).2).
Proof.
  apply (key_field_agreement_preserved PClient). reflexivity.
Defined.

(** * Further properties of the store *)

Section StoreProperties.

Context {F : OwnFields}.

Implicit Types (p : TypeParam F) (id k : string) (clock now : Time).

(** The map an [Update] leaves: the one it found, or that one with the
    entry of an existing key replaced. *)
Lemma Update_items p (s : MemoryStore p) id (data : T p) now :
  items (Update s id data now).2 = items s ∨
  ∃ r, is_Some (items s !! id) ∧
       items (Update s id data now).2 = <[id := r]> (items s).
Proof.
  destruct (items s !! id) as [prev|] eqn:Hprev.
  - destruct (listed p) eqn:Hl.
    + destruct (Update_present_listed p s id data prev now Hl Hprev)
        as (r & -> & _).
      right. exists r. split; [eauto|done].
    + left. by rewrite (Update_present_unlisted p s id data prev now Hl Hprev).
  - left. by rewrite (Update_absent p s id data now Hprev).
Qed.

(** X1. [GetAll], in whatever order the map is traversed, returns as many
    records as the map has keys, and exactly the records stored: none is
    left out and none is made up. *)
Theorem GetAll_contents p (s : MemoryStore p) (out : list (T p)) :
  GetAll_may_return s out →
  length out = size (items s) ∧
  ∀ r, r ∈ out ↔ ∃ k, items s !! k = Some r.
Proof.
  unfold GetAll_may_return, GetAll. intros Hperm. split.
  - by rewrite Hperm, length_fmap, length_map_to_list.
  - intros r. rewrite Hperm, list_elem_of_fmap. split.
    + intros ([k r'] & -> & Hin). exists k. by apply elem_of_map_to_list.
    + intros [k Hk]. exists (k, r). split; [done|]. by apply elem_of_map_to_list.
Qed.

(** X2. In a store a program can hold, the records returned by [GetAll] have
    pairwise distinct identifiers. *)
Theorem GetAll_distinct_IDs p clock (s : MemoryStore p) (out : list (T p)) :
  reachable clock s →
  GetAll_may_return s out →
  NoDup (rec_ID p <$> out).
Proof.
  unfold GetAll_may_return, GetAll. intros Hreach Hperm.
  destruct (reachable_store_inv p clock s Hreach) as [Hk _].
  rewrite Hperm.
  assert (rec_ID p <$> (map_to_list (items s)).*2 = (map_to_list (items s)).*1) as ->.
  { rewrite <- list_fmap_compose. apply list_fmap_ext.
    intros i [k r] Hi. simpl. apply (Hk k r).
    apply elem_of_map_to_list. apply list_elem_of_lookup. eauto. }
  apply NoDup_fst_map_to_list.
Qed.

(** X3. [Create] on a store of items or clients touches one key only, the
    identifier drawn: the record returned is stored there and every other
    entry is as before.  The map grows by one when that identifier was
    free; when it was taken, the record it held is replaced and the size
    stays. *)
Theorem Create_frame p (s : MemoryStore p) (data : T p) (e : CreateEnv) :
  listed p = true →
  items (Create s data e).2 !! uuid_New_String e = Some (Create s data e).1 ∧
  (∀ k, k ≠ uuid_New_String e →
        items (Create s data e).2 !! k = items s !! k) ∧
  (items s !! uuid_New_String e = None →
   size (items (Create s data e).2) = S (size (items s))) ∧
  (is_Some (items s !! uuid_New_String e) →
   size (items (Create s data e).2) = size (items s)).
Proof.
  intros Hl. destruct (Create_listed p s data e Hl) as (r & -> & _). simpl.
  split; [apply lookup_insert_eq|].
  split; [intros k Hne; by apply lookup_insert_ne|].
  split; [apply map_size_insert_None | apply map_size_insert_Some].
Qed.

(** X4. [Update] neither adds nor removes a key, for any type parameter and
    whether or not the identifier exists: the key set and the size are as
    before, and so is every entry under another key. *)
Theorem Update_frame p (s : MemoryStore p) id (data : T p) now :
  dom (items (Update s id data now).2) = dom (items s) ∧
  size (items (Update s id data now).2) = size (items s) ∧
  ∀ k, k ≠ id → items (Update s id data now).2 !! k = items s !! k.
Proof.
  destruct (Update_items p s id data now) as [->|(r & Hsome & ->)]; [done|].
  split; [by apply dom_insert_lookup_L|].
  split; [by apply map_size_insert_Some|].
  intros k Hne. by apply lookup_insert_ne.
Qed.

(** X5. [Delete] removes at most the one key: the size drops by one exactly
    when it returns true, and deleting the same identifier again returns
    false and changes nothing. *)
Theorem Delete_twice p (s : MemoryStore p) id :
  size (items s) =
    size (items (Delete s id).2) + (if (Delete s id).1 then 1 else 0) ∧
  Delete (Delete s id).2 id = (false, (Delete s id).2).
Proof.
  destruct (items s !! id) as [prev|] eqn:Hprev.
  - rewrite (Delete_present p s id prev Hprev). simpl. split.
    + rewrite map_size_delete, Hprev.
      assert (size (items s) ≠ 0); [|simpl; lia].
      intros Hz. apply map_size_empty_inv in Hz.
      rewrite Hz, lookup_empty in Hprev. discriminate.
    + apply Delete_absent. simpl. apply lookup_delete_eq.
  - rewrite (Delete_absent p s id Hprev). simpl. split; [lia|].
    by apply Delete_absent.
Qed.

(** X6. Creating a record under a free identifier and deleting the identifier
    of the returned record gives back the store as it was. *)
Theorem Create_then_Delete p (s : MemoryStore p) (data : T p) (e : CreateEnv) :
  listed p = true →
  items s !! uuid_New_String e = None →
  Delete (Create s data e).2 (rec_ID p (Create s data e).1) = (true, s).
Proof.
  intros Hl Hfree.
  destruct (Create_listed p s data e Hl) as (r & -> & Hid & _). simpl.
  rewrite Hid.
  rewrite (Delete_present p _ (uuid_New_String e) r); [|apply lookup_insert_eq].
  simpl. rewrite (delete_insert_id _ _ _ Hfree). by destruct s.
Qed.

(** X7. In a store a program can hold, every record was created no later than
    it was last modified, and last modified no later than the clock
    stands. *)
Theorem reachable_timestamps p clock (s : MemoryStore p) k (r : T p) :
  reachable clock s →
  items s !! k = Some r →
  rec_CreatedAt p r ≤ rec_UpdatedAt p r ∧ rec_UpdatedAt p r ≤ clock.
Proof.
  intros Hreach Hr.
  destruct (reachable_store_inv p clock s Hreach) as (_ & _ & Ht & _).
  by apply (Ht k r).
Qed.

(** X8. A store instantiated at a type the switches do not list never holds a
    record: whatever calls were made, [GetAll] returns nothing, [GetByID]
    and [Update] report not found and [Delete] returns false. *)
Theorem unlisted_store_empty p clock (s : MemoryStore p) :
  listed p = false →
  reachable clock s →
  items s = ∅ ∧
  (∀ out, GetAll_may_return s out → out = []) ∧
  ∀ id, GetByID s id = (zero p, false) ∧
        (∀ data now, Update s id data now = ((zero p, false), s)) ∧
        Delete s id = (false, s).
Proof.
  intros Hl Hreach.
  pose proof (reachable_unlisted_empty p clock s Hl Hreach) as Hempty.
  assert (∀ id, items s !! id = None) as Hnone
    by (intros id; by rewrite Hempty, lookup_empty).
  split; [done|]. split.
  - unfold GetAll_may_return, GetAll. intros out Hperm.
    rewrite Hempty, map_to_list_empty in Hperm. by apply Permutation_nil_r.
  - intros id. split; [by apply GetByID_None|].
    split; [intros data now; by apply Update_absent | by apply Delete_absent].
Qed.

(** *** Runs of [Create] and of [Update] *)

Lemma create_all_cons_store p (s : MemoryStore p) (data : T p) (e : CreateEnv)
    (calls : list (T p * CreateEnv)) :
  (create_all s ((data, e) :: calls)).2 =
  (create_all (Create s data e).2 calls).2.
Proof.
  simpl. destruct (Create s data e) as [r s1]. simpl.
  by destruct (create_all s1 calls) as [rs s2].
Qed.

Lemma create_all_lookup_other p (calls : list (T p * CreateEnv)) :
  listed p = true →
  ∀ (s : MemoryStore p) k,
    k ∉ (uuid_New_String ∘ snd) <$> calls →
    items (create_all s calls).2 !! k = items s !! k.
Proof.
  intros Hl. induction calls as [|[data e] calls IH]; intros s k Hk.
  - done.
  - rewrite create_all_cons_store. rewrite fmap_cons in Hk. simpl in Hk.
    apply not_elem_of_cons in Hk as [Hne Hk].
    rewrite (IH _ k Hk).
    destruct (Create_listed p s data e Hl) as (r & -> & _). simpl.
    by apply lookup_insert_ne.
Qed.

Lemma create_all_grows p (calls : list (T p * CreateEnv)) :
  listed p = true →
  ∀ s : MemoryStore p,
    NoDup ((uuid_New_String ∘ snd) <$> calls) →
    (∀ u, u ∈ (uuid_New_String ∘ snd) <$> calls → items s !! u = None) →
    size (items (create_all s calls).2) = size (items s) + length calls ∧
    Forall (λ r, items (create_all s calls).2 !! rec_ID p r = Some r)
           (create_all s calls).1.
Proof.
  intros Hl. induction calls as [|[data e] calls IH]; intros s Hnd Hfree.
  - simpl. split; [lia | constructor].
  - rewrite create_all_cons, create_all_cons_store.
    rewrite fmap_cons in Hnd, Hfree. simpl in Hnd, Hfree.
    apply NoDup_cons in Hnd as [Hnotin Hnd].
    destruct (Create_listed p s data e Hl) as (r & Heq & Hid & _).
    rewrite Heq. cbn [fst snd].
    destruct (IH (mkStore (<[uuid_New_String e := r]> (items s))) Hnd) as [Hsize Hall].
    { intros u Hu. simpl. rewrite lookup_insert_ne.
      - apply Hfree. by right.
      - intros <-. done. }
    split.
    + rewrite Hsize. simpl.
      rewrite map_size_insert_None; [lia|]. apply Hfree. by left.
    + constructor; [|done].
      rewrite Hid, (create_all_lookup_other p calls Hl _ _ Hnotin). simpl.
      apply lookup_insert_eq.
Qed.

(** X9. After any number of [Create] calls on a new store of items or clients,
    with pairwise distinct identifiers drawn, the store holds one record per
    call: [GetAll] returns as many records as there were calls, and every
    record a call returned is still found under its identifier. *)
Theorem create_all_count p (calls : list (T p * CreateEnv)) :
  listed p = true →
  NoDup ((uuid_New_String ∘ snd) <$> calls) →
  size (items (create_all (NewMemoryStore p) calls).2) = length calls ∧
  (∀ out, GetAll_may_return (create_all (NewMemoryStore p) calls).2 out →
          length out = length calls) ∧
  Forall (λ r, GetByID (create_all (NewMemoryStore p) calls).2 (rec_ID p r)
               = (r, true))
         (create_all (NewMemoryStore p) calls).1.
Proof.
  intros Hl Hnd.
  destruct (create_all_grows p calls Hl (NewMemoryStore p) Hnd) as [Hsize Hall].
  { intros u _. apply lookup_empty. }
  simpl in Hsize. rewrite map_size_empty in Hsize. simpl in Hsize.
  split; [done|]. split.
  - intros out Hout. unfold GetAll_may_return, GetAll in Hout.
    by rewrite Hout, length_fmap, length_map_to_list.
  - eapply Forall_impl; [exact Hall|]. intros r Hr. by apply GetByID_Some.
Qed.

Lemma update_all_cons p (s : MemoryStore p) id (data : T p) now
    (calls : list (T p * Time)) :
  update_all s id ((data, now) :: calls) =
  ((Update s id data now).1 :: (update_all (Update s id data now).2 id calls).1,
   (update_all (Update s id data now).2 id calls).2).
Proof.
  simpl. destruct (Update s id data now) as [res s1]. simpl.
  by destruct (update_all s1 id calls) as [ress s2].
Qed.

(** X10. Through any run of [Update] calls on an existing identifier of a store
    of items or clients, every call reports found, and the record held at
    the end has the identifier and the creation timestamp of the record
    held at the start, the modification timestamp and the own fields of the
    last call; the entries under other keys are as at the start. *)
Theorem update_all_last p (calls : list (T p * Time)) :
  listed p = true →
  ∀ (s : MemoryStore p) id (prev data : T p) now,
    items s !! id = Some prev →
    Forall (λ res, res.2 = true) (update_all s id (calls ++ [(data, now)])).1 ∧
    (∃ r, items (update_all s id (calls ++ [(data, now)])).2 !! id = Some r ∧
          rec_ID p r = id ∧
          rec_CreatedAt p r = rec_CreatedAt p prev ∧
          rec_UpdatedAt p r = now ∧
          same_own_fields r data) ∧
    ∀ k, k ≠ id →
      items (update_all s id (calls ++ [(data, now)])).2 !! k = items s !! k.
Proof.
  intros Hl. induction calls as [|[d0 n0] calls IH]; intros s id prev data now Hprev.
  - simpl app. rewrite update_all_cons.
    destruct (Update_present_listed p s id data prev now Hl Hprev)
      as (r & -> & Hid & Hc & Hu & Hown).
    simpl. split; [by repeat constructor|]. split.
    + exists r. split; [apply lookup_insert_eq|done].
    + intros k Hne. by apply lookup_insert_ne.
  - rewrite <- app_comm_cons, update_all_cons.
    destruct (Update_present_listed p s id d0 prev n0 Hl Hprev)
      as (r0 & -> & Hid0 & Hc0 & _).
    cbn [fst snd].
    destruct (IH (mkStore (<[id := r0]> (items s))) id r0 data now)
      as (Hall & (r & Hr & Hid & Hc & Hu & Hown) & Hframe);
      [apply lookup_insert_eq|].
    split; [by constructor|]. split.
    + exists r. repeat split; auto. congruence.
    + intros k Hne. rewrite (Hframe k Hne). simpl. by apply lookup_insert_ne.
Qed.

End StoreProperties.

(** * Properties of the handlers *)

Section HandlerProperties.

Context {F : OwnFields} {p : TypeParam F}.
Context (not_found : string).

Implicit Types (s : MemoryStore p) (r : Request p) (now : Time).

Lemma Update_present s id (data prev : T p) now :
  items s !! id = Some prev →
  ∃ res s', Update s id data now = ((res, true), s').
Proof.
  intros Hprev. destruct (listed p) eqn:Hl.
  - destruct (Update_present_listed p s id data prev now Hl Hprev) as (res & -> & _).
    eauto.
  - rewrite (Update_present_unlisted p s id data prev now Hl Hprev). eauto.
Qed.

(** *** The response of each handler, case by case *)

Lemma Handler_GetByID_found s r (item : T p) :
  items s !! Vars_id r = Some item →
  Handler_GetByID not_found s r new_writer
  = (mkWriter (Some StatusOK) [JSON_record item], s).
Proof.
  intros H. unfold Handler_GetByID. by rewrite (GetByID_Some p s _ item H).
Qed.

Lemma Handler_GetByID_missing s r :
  items s !! Vars_id r = None →
  Handler_GetByID not_found s r new_writer
  = (mkWriter (Some StatusNotFound) [JSON_error not_found], s).
Proof.
  intros H. unfold Handler_GetByID. by rewrite (GetByID_None p s _ H).
Qed.

Lemma Handler_Create_undecodable s r e :
  Decode r = None →
  Handler_Create s r e new_writer
  = (mkWriter (Some StatusBadRequest) [JSON_error "Invalid request payload"], s).
Proof. intros H. unfold Handler_Create. by rewrite H. Qed.

Lemma Handler_Create_decoded s r e (item : T p) :
  Decode r = Some item →
  Handler_Create s r e new_writer
  = (mkWriter (Some StatusCreated) [JSON_record (Create s item e).1],
     (Create s item e).2).
Proof.
  intros H. unfold Handler_Create. rewrite H.
  by destruct (Create s item e) as [created s'].
Qed.

Lemma Handler_Update_undecodable s r now :
  Decode r = None →
  Handler_Update not_found s r now new_writer
  = (mkWriter (Some StatusBadRequest) [JSON_error "Invalid request payload"], s).
Proof. intros H. unfold Handler_Update. by rewrite H. Qed.

Lemma Handler_Update_missing s r now (item : T p) :
  Decode r = Some item →
  items s !! Vars_id r = None →
  Handler_Update not_found s r now new_writer
  = (mkWriter (Some StatusNotFound) [JSON_error not_found], s).
Proof.
  intros H Hnone. unfold Handler_Update.
  by rewrite H, (Update_absent p s _ item now Hnone).
Qed.

Lemma Handler_Update_found s r now (item prev : T p) :
  Decode r = Some item →
  items s !! Vars_id r = Some prev →
  Handler_Update not_found s r now new_writer
  = (mkWriter (Some StatusOK) [JSON_record (Update s (Vars_id r) item now).1.1],
     (Update s (Vars_id r) item now).2).
Proof.
  intros H Hprev. unfold Handler_Update. rewrite H.
  by destruct (Update_present s (Vars_id r) item prev now Hprev) as (res & s' & ->).
Qed.

Lemma Handler_Delete_missing s r :
  items s !! Vars_id r = None →
  Handler_Delete not_found s r new_writer
  = (mkWriter (Some StatusNotFound) [JSON_error not_found], s).
Proof.
  intros H. unfold Handler_Delete. by rewrite (Delete_absent p s _ H).
Qed.

Lemma Handler_Delete_found s r (prev : T p) :
  items s !! Vars_id r = Some prev →
  Handler_Delete not_found s r new_writer
  = (mkWriter (Some StatusNoContent) [], mkStore (delete (Vars_id r) (items s))).
Proof.
  intros H. unfold Handler_Delete. by rewrite (Delete_present p s _ prev H).
Qed.

(** *** What every response looks like *)

(** X11. Every handler, called with a new writer, sends the header exactly once
    and answers in one of three forms: [200] or [201] with one document
    that is not an error object; [204] with an empty body; [400] or [404]
    with exactly one error object. *)
Theorem serve_response_form (c : HandlerCall p) s :
  ∃ code, status (serve not_found c s).1 = Some code ∧
    (((code = StatusOK ∨ code = StatusCreated) ∧
      ∃ v, body (serve not_found c s).1 = [v] ∧ ∀ msg, v ≠ JSON_error msg)
     ∨ (code = StatusNoContent ∧ body (serve not_found c s).1 = [])
     ∨ ((code = StatusBadRequest ∨ code = StatusNotFound) ∧
        ∃ msg, body (serve not_found c s).1 = [JSON_error msg])).
Proof.
  destruct c as [|r|r e|r now|r]; simpl.
  - exists StatusOK. split; [done|]. left. split; [by left|].
    eexists. split; [done|]. discriminate.
  - destruct (items s !! Vars_id r) as [item|] eqn:Hr.
    + rewrite (Handler_GetByID_found s r item Hr). simpl.
      exists StatusOK. split; [done|]. left. split; [by left|].
      eexists. split; [done|]. discriminate.
    + rewrite (Handler_GetByID_missing s r Hr). simpl.
      exists StatusNotFound. split; [done|]. right. right. split; [by right|]. eauto.
  - destruct (Decode r) as [item|] eqn:Hd.
    + rewrite (Handler_Create_decoded s r e item Hd). simpl.
      exists StatusCreated. split; [done|]. left. split; [by right|].
      eexists. split; [done|]. discriminate.
    + rewrite (Handler_Create_undecodable s r e Hd). simpl.
      exists StatusBadRequest. split; [done|]. right. right. split; [by left|]. eauto.
  - destruct (Decode r) as [item|] eqn:Hd.
    + destruct (items s !! Vars_id r) as [prev|] eqn:Hr.
      * rewrite (Handler_Update_found s r now item prev Hd Hr). simpl.
        exists StatusOK. split; [done|]. left. split; [by left|].
        eexists. split; [done|]. discriminate.
      * rewrite (Handler_Update_missing s r now item Hd Hr). simpl.
        exists StatusNotFound. split; [done|]. right. right. split; [by right|]. eauto.
    + rewrite (Handler_Update_undecodable s r now Hd). simpl.
      exists StatusBadRequest. split; [done|]. right. right. split; [by left|]. eauto.
  - destruct (items s !! Vars_id r) as [prev|] eqn:Hr.
    + rewrite (Handler_Delete_found s r prev Hr). simpl.
      exists StatusNoContent. split; [done|]. right. by left.
    + rewrite (Handler_Delete_missing s r Hr). simpl.
      exists StatusNotFound. split; [done|]. right. right. split; [by right|]. eauto.
Qed.

(** X12. A request answered with an error status leaves the store as it was:
    an undecodable body or an unknown identifier never causes a write. *)
Theorem serve_error_keeps_store (c : HandlerCall p) s (code : nat) :
  status (serve not_found c s).1 = Some code →
  StatusBadRequest ≤ code →
  (serve not_found c s).2 = s.
Proof.
  unfold StatusBadRequest.
  destruct c as [|r|r e|r now|r]; simpl.
  - done.
  - unfold Handler_GetByID. destruct (GetByID s (Vars_id r)) as [item []]; done.
  - destruct (Decode r) as [item|] eqn:Hd.
    + rewrite (Handler_Create_decoded s r e item Hd). simpl.
      intros [= <-]. unfold StatusCreated. lia.
    + by rewrite (Handler_Create_undecodable s r e Hd).
  - destruct (Decode r) as [item|] eqn:Hd.
    + destruct (items s !! Vars_id r) as [prev|] eqn:Hr.
      * rewrite (Handler_Update_found s r now item prev Hd Hr). simpl.
        intros [= <-]. unfold StatusOK. lia.
      * by rewrite (Handler_Update_missing s r now item Hd Hr).
    + by rewrite (Handler_Update_undecodable s r now Hd).
  - destruct (items s !! Vars_id r) as [prev|] eqn:Hr.
    + rewrite (Handler_Delete_found s r prev Hr). simpl.
      intros [= <-]. unfold StatusNoContent. lia.
    + by rewrite (Handler_Delete_missing s r Hr).
Qed.

(** X13. The status of [PUT /items/{id}]: the body is decoded before the
    identifier is looked up, so an undecodable body is answered [400]
    whether or not the identifier exists; a decodable body is answered
    [404] exactly when the identifier is absent and [200] exactly when it is
    present. *)
Theorem Handler_Update_status s r now :
  (status (Handler_Update not_found s r now new_writer).1 = Some StatusBadRequest
     ↔ Decode r = None) ∧
  (status (Handler_Update not_found s r now new_writer).1 = Some StatusNotFound
     ↔ is_Some (Decode r) ∧ items s !! Vars_id r = None) ∧
  (status (Handler_Update not_found s r now new_writer).1 = Some StatusOK
     ↔ is_Some (Decode r) ∧ is_Some (items s !! Vars_id r)).
Proof.
  destruct (Decode r) as [item|] eqn:Hd.
  - destruct (items s !! Vars_id r) as [prev|] eqn:Hr.
    + rewrite (Handler_Update_found s r now item prev Hd Hr). simpl.
      repeat split; try discriminate; eauto.
      * intros [_ ?]. discriminate.
    + rewrite (Handler_Update_missing s r now item Hd Hr). simpl.
      repeat split; try discriminate; eauto.
      * intros [_ [? ?]]. discriminate.
  - rewrite (Handler_Update_undecodable s r now Hd). simpl.
    repeat split; try discriminate.
    + intros [[? ?] _]. discriminate.
    + intros [[? ?] _]. discriminate.
Qed.

(** X14. [POST] then [GET]: for items and clients, a decodable body is answered
    [201] with the created record, and a [GET] of that record's identifier
    right after is answered [200] with the same record. *)
Theorem Handler_Create_then_GetByID s r r' e (raw : T p) :
  listed p = true →
  Decode r = Some raw →
  Vars_id r' = uuid_New_String e →
  ∃ created,
    (Handler_Create s r e new_writer).1
      = mkWriter (Some StatusCreated) [JSON_record created] ∧
    rec_ID p created = uuid_New_String e ∧
    Handler_GetByID not_found (Handler_Create s r e new_writer).2 r' new_writer
      = (mkWriter (Some StatusOK) [JSON_record created],
         (Handler_Create s r e new_writer).2).
Proof.
  intros Hl Hd Hid.
  rewrite (Handler_Create_decoded s r e raw Hd).
  destruct (Create_listed p s raw e Hl) as (created & -> & Hcid & _). simpl.
  exists created. split; [done|]. split; [done|].
  apply Handler_GetByID_found. simpl. rewrite Hid. apply lookup_insert_eq.
Qed.

(** X15. [PUT] then [GET]: for items and clients, a decodable body sent to an
    existing identifier is answered [200] with a record carrying that
    identifier, and a [GET] of the identifier right after is answered [200]
    with the same record. *)
Theorem Handler_Update_then_GetByID s r r' now (raw : T p) :
  listed p = true →
  Decode r = Some raw →
  is_Some (items s !! Vars_id r) →
  Vars_id r' = Vars_id r →
  ∃ updated,
    (Handler_Update not_found s r now new_writer).1
      = mkWriter (Some StatusOK) [JSON_record updated] ∧
    rec_ID p updated = Vars_id r ∧
    Handler_GetByID not_found (Handler_Update not_found s r now new_writer).2
                    r' new_writer
      = (mkWriter (Some StatusOK) [JSON_record updated],
         (Handler_Update not_found s r now new_writer).2).
Proof.
  intros Hl Hd [prev Hprev] Hid.
  rewrite (Handler_Update_found s r now raw prev Hd Hprev).
  destruct (Update_present_listed p s (Vars_id r) raw prev now Hl Hprev)
    as (updated & -> & Huid & _).
  simpl. exists updated. split; [done|]. split; [done|].
  apply Handler_GetByID_found. simpl. rewrite Hid. apply lookup_insert_eq.
Qed.

(** X16. [DELETE /items/{id}] is answered [204] exactly when the identifier
    exists; whatever the answer, a [GET] and a second [DELETE] of the same
    identifier right after are both answered [404]. *)
Theorem Handler_Delete_then s r :
  (status (Handler_Delete not_found s r new_writer).1 = Some StatusNoContent
     ↔ is_Some (items s !! Vars_id r)) ∧
  Handler_GetByID not_found (Handler_Delete not_found s r new_writer).2 r new_writer
    = (mkWriter (Some StatusNotFound) [JSON_error not_found],
       (Handler_Delete not_found s r new_writer).2) ∧
  Handler_Delete not_found (Handler_Delete not_found s r new_writer).2 r new_writer
    = (mkWriter (Some StatusNotFound) [JSON_error not_found],
       (Handler_Delete not_found s r new_writer).2).
Proof.
  destruct (items s !! Vars_id r) as [prev|] eqn:Hr.
  - rewrite (Handler_Delete_found s r prev Hr). simpl.
    split; [split; eauto|].
    split; [apply Handler_GetByID_missing | apply Handler_Delete_missing];
      simpl; apply lookup_delete_eq.
  - rewrite (Handler_Delete_missing s r Hr). simpl.
    split; [split; [discriminate | intros [? ?]; discriminate]|].
    split; [by apply Handler_GetByID_missing | by apply Handler_Delete_missing].
Qed.

End HandlerProperties.

(** * The further properties on concrete runs *)

Lemma two_items_distinct : NoDup ((uuid_New_String ∘ snd) <$> two_items).
Proof.
  apply NoDup_cons. split.
  - intros H%list_elem_of_singleton. discriminate H.
  - apply NoDup_singleton.
Qed.

Lemma order_store_reachable : reachable 5 order_store.
Proof.
  refine (reachable_call 0 (NewMemoryStore POrder) create_order (reachable_new 0) _).
  simpl. repeat split; lia.
Qed.

Lemma GetAll_contents_witness :
  length (GetAll laptop_store) = size (items laptop_store) ∧
  ∀ r, r ∈ GetAll laptop_store ↔ ∃ k, items laptop_store !! k = Some r.
Proof.
  apply (GetAll_contents PItem laptop_store (GetAll laptop_store)).
  unfold GetAll_may_return. reflexivity.
Defined.

Lemma GetAll_distinct_IDs_witness :
  NoDup (rec_ID PItem <$> GetAll laptop_store).
Proof.
  apply (GetAll_distinct_IDs PItem 5 laptop_store (GetAll laptop_store)).
  - exact laptop_store_reachable.
  - unfold GetAll_may_return. reflexivity.
Defined.

Lemma Create_frame_witness :
  items (Create laptop_store (laptop_pro : T PItem) env_b).2 !! uuid_b
    = Some (Create laptop_store (laptop_pro : T PItem) env_b).1 ∧
  (∀ k, k ≠ uuid_b →
        items (Create laptop_store (laptop_pro : T PItem) env_b).2 !! k
        = items laptop_store !! k) ∧
  (items laptop_store !! uuid_b = None →
   size (items (Create laptop_store (laptop_pro : T PItem) env_b).2)
   = S (size (items laptop_store))) ∧
  (is_Some (items laptop_store !! uuid_b) →
   size (items (Create laptop_store (laptop_pro : T PItem) env_b).2)
   = size (items laptop_store)).
Proof.
  apply (Create_frame PItem laptop_store laptop_pro env_b). reflexivity.
Defined.

Lemma Create_then_Delete_witness :
  Delete (Create (NewMemoryStore PItem) (laptop : T PItem) env_a).2
         (rec_ID PItem (Create (NewMemoryStore PItem) (laptop : T PItem) env_a).1)
  = (true, NewMemoryStore PItem).
Proof.
  apply (Create_then_Delete PItem (NewMemoryStore PItem) laptop env_a).
  - reflexivity.
  - apply lookup_empty.
Defined.

Lemma reachable_timestamps_witness :
  rec_CreatedAt PItem stored_laptop ≤ rec_UpdatedAt PItem stored_laptop ∧
  rec_UpdatedAt PItem stored_laptop ≤ 5.
Proof.
  apply (reachable_timestamps PItem 5 laptop_store uuid_a stored_laptop).
  - exact laptop_store_reachable.
  - exact laptop_store_lookup.
Defined.

Lemma unlisted_store_empty_witness :
  items order_store = ∅ ∧
  (∀ out, GetAll_may_return order_store out → out = []) ∧
  ∀ id, GetByID order_store id = (zero POrder, false) ∧
        (∀ data now, Update order_store id data now
                     = ((zero POrder, false), order_store)) ∧
        Delete order_store id = (false, order_store).
Proof.
  apply (unlisted_store_empty POrder 5 order_store).
  - reflexivity.
  - exact order_store_reachable.
Defined.

Lemma create_all_count_witness :
  size (items (create_all (NewMemoryStore PItem) two_items).2) = length two_items ∧
  (∀ out, GetAll_may_return (create_all (NewMemoryStore PItem) two_items).2 out →
          length out = length two_items) ∧
  Forall (λ r, GetByID (create_all (NewMemoryStore PItem) two_items).2
                       (rec_ID PItem r) = (r, true))
         (create_all (NewMemoryStore PItem) two_items).1.
Proof.
  apply (create_all_count PItem two_items).
  - reflexivity.
  - exact two_items_distinct.
Defined.

Lemma update_all_last_witness :
  Forall (λ res, res.2 = true)
    (update_all laptop_store uuid_a (earlier_updates ++ [(laptop_pro : T PItem, 9)])).1 ∧
  (∃ r, items (update_all laptop_store uuid_a
                 (earlier_updates ++ [(laptop_pro : T PItem, 9)])).2 !! uuid_a = Some r ∧
        rec_ID PItem r = uuid_a ∧
        rec_CreatedAt PItem r = rec_CreatedAt PItem stored_laptop ∧
        rec_UpdatedAt PItem r = 9 ∧
        same_own_fields r (laptop_pro : T PItem)) ∧
  ∀ k, k ≠ uuid_a →
    items (update_all laptop_store uuid_a
             (earlier_updates ++ [(laptop_pro : T PItem, 9)])).2 !! k
    = items laptop_store !! k.
Proof.
  apply (update_all_last PItem earlier_updates eq_refl laptop_store uuid_a
           stored_laptop laptop_pro 9).
  exact laptop_store_lookup.
Defined.

Lemma serve_error_keeps_store_witness :
  (serve ItemHandler.not_found (ServeUpdate put_a_undecodable 9) laptop_store).2
  = laptop_store.
Proof.
  apply (serve_error_keeps_store ItemHandler.not_found
           (ServeUpdate put_a_undecodable 9) laptop_store StatusBadRequest).
  - reflexivity.
  - reflexivity.
Defined.

Lemma Handler_Create_then_GetByID_witness :
  ∃ created,
    (ItemHandler.Create (NewMemoryStore PItem) post_laptop env_a new_writer).1
      = mkWriter (Some StatusCreated) [JSON_record created] ∧
    rec_ID PItem created = uuid_a ∧
    ItemHandler.GetByID
      (ItemHandler.Create (NewMemoryStore PItem) post_laptop env_a new_writer).2
      get_a new_writer
      = (mkWriter (Some StatusOK) [JSON_record created],
         (ItemHandler.Create (NewMemoryStore PItem) post_laptop env_a new_writer).2).
Proof.
  apply (Handler_Create_then_GetByID ItemHandler.not_found
           (NewMemoryStore PItem) post_laptop get_a env_a laptop);
    reflexivity.
Defined.

Lemma Handler_Update_then_GetByID_witness :
  ∃ updated,
    (ItemHandler.Update laptop_store put_a 9 new_writer).1
      = mkWriter (Some StatusOK) [JSON_record updated] ∧
    rec_ID PItem updated = uuid_a ∧
    ItemHandler.GetByID (ItemHandler.Update laptop_store put_a 9 new_writer).2
                        get_a new_writer
      = (mkWriter (Some StatusOK) [JSON_record updated],
         (ItemHandler.Update laptop_store put_a 9 new_writer).2).
Proof.
  apply (Handler_Update_then_GetByID ItemHandler.not_found
           laptop_store put_a get_a 9 laptop_pro).
  - reflexivity.
  - reflexivity.
  - exists stored_laptop. exact laptop_store_lookup.
  - reflexivity.
Defined.
